(** * The Wize source-control service and the preview toggle

    A shallow embedding of [WizeService] (the provider registry of the
    Wize viewlet) and of the [WizePreview] static toggle, together with
    the properties stated about them.

    JavaScript objects are compared by identity ([===], [Array.indexOf]);
    provider objects are therefore kept abstract, with a decidable
    equality standing for reference equality and an accessor for the
    one property the service reads, [id]. *)

From Stdlib Require Import ZArith.
From stdpp Require Import base option list strings gmap.

Local Open Scope Z_scope.

(** ** Array primitives of the host language *)

Module Js.

Section Array.
Context {A : Type} `{EqDecision A}.

(** [truthy v]: an object reference is truthy, [undefined] is not. *)
Definition truthy (v : option A) : bool :=
  match v with Some _ => true | None => false end.

(** [arr.indexOf(v)]: position of the first element strictly equal to
    [v], or [-1].  The array holds objects; the needle may be
    [undefined], which equals none of them. *)
Definition indexOf (arr : list A) (v : option A) : Z :=
  match list_find (λ x, Some x = v) arr with
  | Some (i, _) => Z.of_nat i
  | None => -1
  end.

(** [arr.splice(index, 1)] for a non-negative [index]: the element at
    that position is removed (nothing happens past the end). *)
Definition splice1 (arr : list A) (index : Z) : list A :=
  delete (Z.to_nat index) arr.

End Array.

End Js.

(** ** The provider registry: [WizeService] (wizeService.ts) *)

Module WizeService.

(** The two errors the [activeProvider] setter throws. *)
Inductive Error :=
  | InvalidProvider        (* new Error('invalid provider') *)
  | UnregisteredProvider.  (* new Error('Provider not registered') *)

Definition message (e : Error) : string :=
  match e with
  | InvalidProvider => "invalid provider"
  | UnregisteredProvider => "Provider not registered"
  end.

(** How a call ends: it returns a value or it throws. *)
Inductive Completion (A : Type) :=
  | Return (a : A)
  | Throw (e : Error).
Global Arguments Return {A} a.
Global Arguments Throw {A} e.

Section Service.
(** [IWizeProvider] is declared in './wize'; the service only compares
    provider objects by reference and reads their [id]. *)
Context {IWizeProvider : Type} `{EqDecision IWizeProvider}.
Context (id : IWizeProvider → string).

(** One delivery of the [_onDidChangeProvider] emitter: the value
    handed to the listeners, and what a listener reading the
    [activeProvider] getter and the 'wize.provider' context key from
    inside its callback finds there. *)
Record Delivery := {
  payload : option IWizeProvider;
  seen_activeProvider : option IWizeProvider;
  seen_contextKey : option string;
}.

(** The fields of a [WizeService] object.  The context key is kept by
    its current value, the emitter by the deliveries it has made so
    far, oldest first. *)
Record WizeService := {
  activeProviderContextKey : option string;
  _activeProvider : option IWizeProvider;
  _providers : list IWizeProvider;
  _onDidChangeProvider : list Delivery;
}.

(** A method body: it runs on the object, may change its fields, and
    returns or throws.  Field writes made before a throw stay. *)
Definition Op (A : Type) : Type :=
  WizeService → WizeService * Completion A.

Global Instance Op_ret : MRet Op := λ A a this, (this, Return a).
Global Instance Op_bind : MBind Op := λ A B f m this,
  match m this with
  | (this', Return a) => f a this'
  | (this', Throw e) => (this', Throw e)
  end.

Definition throw {A} (e : Error) : Op A := λ this, (this, Throw e).
Definition get : Op WizeService := λ this, (this, Return this).

Definition set__activeProvider (v : option IWizeProvider) : Op unit :=
  λ this, ({| activeProviderContextKey := activeProviderContextKey this;
              _activeProvider := v;
              _providers := _providers this;
              _onDidChangeProvider := _onDidChangeProvider this |},
           Return ()).

Definition set__providers (v : list IWizeProvider) : Op unit :=
  λ this, ({| activeProviderContextKey := activeProviderContextKey this;
              _activeProvider := _activeProvider this;
              _providers := v;
              _onDidChangeProvider := _onDidChangeProvider this |},
           Return ()).

(** Modelled from the spec: [IContextKey.set] (vs/platform/contextkey)
    stores the derived identifier that condition evaluation reads. *)
Definition activeProviderContextKey_set (v : option string) : Op unit :=
  λ this, ({| activeProviderContextKey := v;
              _activeProvider := _activeProvider this;
              _providers := _providers this;
              _onDidChangeProvider := _onDidChangeProvider this |},
           Return ()).

(** [get activeProvider()] *)
Definition activeProvider : Op (option IWizeProvider) :=
  this ← get; mret (_activeProvider this).

(** What a listener finds when, inside its callback, it calls the
    [activeProvider] getter of the service and looks up the
    'wize.provider' context key; [v] is the value it was handed.  The
    listener this repository subscribes, [WizeViewlet.setActiveProvider],
    reads the getter and does not call back into the service. *)
Definition listener_reads (v : option IWizeProvider) : Op Delivery :=
  active ← activeProvider;
  this ← get;
  mret {| payload := v;
          seen_activeProvider := active;
          seen_contextKey := activeProviderContextKey this |}.

(** The emitter, kept by the deliveries it has made, records one more. *)
Definition _onDidChangeProvider_record (d : Delivery) : Op unit :=
  λ this, ({| activeProviderContextKey := activeProviderContextKey this;
              _activeProvider := _activeProvider this;
              _providers := _providers this;
              _onDidChangeProvider := _onDidChangeProvider this ++ [d] |},
           Return ()).

(** Modelled from the spec: [Emitter.fire] (vs/base/common/event)
    delivers synchronously, inline in the call that triggers it: the
    listener runs on the service as it is at that moment. *)
Definition _onDidChangeProvider_fire (v : option IWizeProvider) : Op unit :=
  d ← listener_reads v;
  _onDidChangeProvider_record d.

(** Modelled from the spec: [toDisposable] (vs/base/common/lifecycle)
    wraps a function into a release handle; invoking the handle runs
    the function. *)
Record IDisposable := toDisposable { dispose : Op unit }.

(** The delivery made when [p] becomes the active provider. *)
Definition delivery_of (p : IWizeProvider) : Delivery :=
  {| payload := Some p;
     seen_activeProvider := Some p;
     seen_contextKey := Some (id p) |}.

(** [new WizeService(...)]: the key is created with [void 0], no
    provider is active, no provider is registered. *)
Definition constructor : WizeService :=
  {| activeProviderContextKey := None;
     _activeProvider := None;
     _providers := [];
     _onDidChangeProvider := [] |}.

(** [set activeProvider(provider)] *)
Definition set_activeProvider (provider : option IWizeProvider) : Op unit :=
  if negb (Js.truthy provider) then throw InvalidProvider
  else
    this ← get;
    if Js.truthy provider
       && bool_decide (Js.indexOf (_providers this) provider = -1)
    then throw UnregisteredProvider
    else
      set__activeProvider provider;;
      activeProviderContextKey_set
        (match provider with Some p => Some (id p) | None => None end);;
      _onDidChangeProvider_fire provider.

(** [get providers()]: a copy of the array. *)
Definition providers : Op (list IWizeProvider) :=
  this ← get; mret (_providers this).

(** The function [registerWizeProvider] hands to [toDisposable]
    (the arrow function closing over [provider]). *)
Definition unregister (provider : IWizeProvider) : Op unit :=
  this ← get;
  let index := Js.indexOf (_providers this) (Some provider) in
  if bool_decide (index < 0) then mret ()
  else
    set__providers (Js.splice1 (_providers this) index);;
    active ← activeProvider;
    if bool_decide (active = Some provider)
    then this ← get; set_activeProvider (_providers this !! 0%nat)
    else mret ().

(** [registerWizeProvider(provider)] *)
Definition registerWizeProvider (provider : IWizeProvider) : Op IDisposable :=
  this ← get;
  set__providers (provider :: _providers this);;
  this ← get;
  (if bool_decide (length (_providers this) = 1%nat)
   then set_activeProvider (Some provider)
   else mret ());;
  mret (toDisposable (unregister provider)).

(** *** A client of the service

    A client holds the service and the release handles its
    registrations returned, in the order it obtained them.  It can
    register a provider, assign the [activeProvider] property, or
    invoke one of its handles; an error thrown by a call reaches the
    client, which goes on with its next call. *)
Record Client := {
  service : WizeService;
  handles : list IDisposable;
}.

Inductive Call :=
  | CallRegister (provider : IWizeProvider)
  | CallSetActive (provider : option IWizeProvider)
  | CallDispose (n : nat).   (* the [n]-th handle obtained, from 0 *)

Definition call (c : Call) (cl : Client) : Client * Completion unit :=
  match c with
  | CallRegister p =>
      match registerWizeProvider p (service cl) with
      | (this', Return h) =>
          ({| service := this'; handles := handles cl ++ [h] |}, Return ())
      | (this', Throw e) =>
          ({| service := this'; handles := handles cl |}, Throw e)
      end
  | CallSetActive p =>
      let '(this', r) := set_activeProvider p (service cl) in
      ({| service := this'; handles := handles cl |}, r)
  | CallDispose n =>
      match handles cl !! n with
      | Some h =>
          let '(this', r) := dispose h (service cl) in
          ({| service := this'; handles := handles cl |}, r)
      | None => (cl, Return ())
      end
  end.

Definition run (cs : list Call) (cl : Client) : Client :=
  foldl (λ cl c, fst (call c cl)) cl cs.

Definition startup : Client :=
  {| service := constructor; handles := [] |}.

(** The handles a client holds all come from registrations. *)
Definition handles_released (cl : Client) : Prop :=
  Forall (λ h, ∃ p, h = toDisposable (unregister p)) (handles cl).

(** What the registry invariant of the data model asks of a state. *)
Definition active_registered (this : WizeService) : Prop :=
  ∀ p, _activeProvider this = Some p → p ∈ _providers this.

Definition empty_unset (this : WizeService) : Prop :=
  _providers this = [] → _activeProvider this = None.

(** A delivery agrees with the state its listeners read. *)
Definition consistent (d : Delivery) : Prop :=
  seen_activeProvider d = payload d ∧
  seen_contextKey d = id <$> payload d.

(** *** Vocabulary for the effects of the calls *)

(** The object with its array of providers replaced. *)
Definition with_providers (l : list IWizeProvider) (this : WizeService)
    : WizeService :=
  fst (set__providers l this).

(** The object after the three statements that end the setter have run
    for provider [p]. *)
Definition activated (p : IWizeProvider) (this : WizeService) : WizeService :=
  fst ((set__activeProvider (Some p);;
        activeProviderContextKey_set (Some (id p));;
        _onDidChangeProvider_fire (Some p)) this).

(** Whether a call returned rather than threw, and whether every call of
    a series did. *)
Definition returned {A} (r : Completion A) : bool :=
  match r with Return _ => true | Throw _ => false end.

Fixpoint all_returned (cs : list Call) (cl : Client) : bool :=
  match cs with
  | [] => true
  | c :: cs => returned (snd (call c cl)) && all_returned cs (fst (call c cl))
  end.

Definition is_register (c : Call) : bool :=
  match c with CallRegister _ => true | _ => false end.


(** The deliveries a call added, given the object before and after. *)
Definition delivered (this this' : WizeService) : list Delivery :=
  drop (length (_onDidChangeProvider this)) (_onDidChangeProvider this').
End Service.

End WizeService.

(** ** The preview toggle: [WizePreview] *)

Module WizePreview.

(** The key under which the toggle is persisted. *)
Definition key : string := "enablePreviewWize".

(** A running window: [window.localStorage], which outlives the
    process, and the static field [WizePreview._enabled]. *)
Record Window := {
  localStorage : gmap string string;
  _enabled : bool;
}.

(** Class initialisation:
    [_enabled = window.localStorage.getItem('enablePreviewWize') === 'true']. *)
Definition load (storage : gmap string string) : Window :=
  {| localStorage := storage;
     _enabled := bool_decide (storage !! key = Some "true") |}.

(** [static get enabled()] *)
Definition enabled (w : Window) : bool := _enabled w.

(** [static set enabled(enabled)] *)
Definition set_enabled (enabled : bool) (w : Window) : Window :=
  {| localStorage :=
       <[key := if enabled then "true" else "false"]> (localStorage w);
     _enabled := _enabled w |}.

(** A series of assignments to [WizePreview.enabled], in order. *)
Definition assign_all (bs : list bool) (w : Window) : Window :=
  foldl (λ w b, set_enabled b w) w bs.

(** [EnableWizePreviewAction.run()].  [confirm] is the answer of
    [messageService.confirm]; the boolean returned tells whether
    [windowService.reloadWindow()] was called. *)
Definition EnableWizePreviewAction_run (confirm : bool) (w : Window)
    : Window * bool :=
  if negb confirm then (w, false)
  else (set_enabled true w, true).

(** [DisableWizePreviewAction.run()] *)
Definition DisableWizePreviewAction_run (confirm : bool) (w : Window)
    : Window * bool :=
  if negb confirm then (w, false)
  else (set_enabled false w, true).

End WizePreview.

(** ** The viewlet: [WizeViewlet] *)

Module WizeViewlet.

Section Viewlet.
(** The interfaces of './wize': a provider lists resource groups
    ([provider.resources]), a group lists resources ([group.resources]). *)
Context {IWizeProvider IWizeResourceGroup IWizeResource : Type}.
Context `{EqDecision IWizeProvider}.
Context (provider_resources : IWizeProvider → list IWizeResourceGroup).
Context (group_resources : IWizeResourceGroup → list IWizeResource).

(** A row of the list: [IWizeResourceGroup | IWizeResource]. *)
Definition Element : Type := IWizeResourceGroup + IWizeResource.

(** [groups.reduce((r, g) => [...r, g, ...g.resources], [])] *)
Definition elements (groups : list IWizeResourceGroup) : list Element :=
  foldl (λ r g, r ++ [inl g] ++ (inr <$> group_resources g)) [] groups.

(** [list.splice(start, deleteCount, elements)] of the list widget:
    [deleteCount] rows from [start] on are replaced by [elements]. *)
Definition splice (rows : list Element) (start deleteCount : nat)
    (elements : list Element) : list Element :=
  take start rows ++ elements ++ drop (start + deleteCount) rows.

(** The fields of the viewlet that its provider handling touches.
    [providerChangeDisposable] is kept by the provider whose change
    stream it unsubscribes from ([None] for [EmptyDisposable]);
    [listening] holds, one entry per live subscription, the providers on
    whose [onDidChange] stream [this.update] is registered. *)
Record WizeViewlet := {
  list_ : list Element;   (* [this.list], by the rows it holds *)
  providerChangeDisposable : option IWizeProvider;
  listening : list IWizeProvider;
}.

(** Modelled from the spec: an event stream is a publish/subscribe
    primitive returning an unsubscribe handle per subscription.
    Disposing the handle takes that one subscription away; disposing
    [EmptyDisposable] does nothing. *)
Definition providerChangeDisposable_dispose (this : WizeViewlet) : WizeViewlet :=
  match providerChangeDisposable this with
  | Some p =>
      {| list_ := list_ this;
         providerChangeDisposable := providerChangeDisposable this;
         listening := Js.splice1 (listening this)
                                 (Js.indexOf (listening this) (Some p)) |}
  | None => this
  end.

(** [update()]; [active] is what [this.wizeService.activeProvider]
    returns when it runs. *)
Definition update (active : option IWizeProvider) (this : WizeViewlet)
    : WizeViewlet :=
  match active with
  | None =>
      {| list_ := splice (list_ this) 0 (length (list_ this)) [];
         providerChangeDisposable := providerChangeDisposable this;
         listening := listening this |}
  | Some provider =>
      let elements := elements (provider_resources provider) in
      {| list_ := splice (list_ this) 0 (length (list_ this)) elements;
         providerChangeDisposable := providerChangeDisposable this;
         listening := listening this |}
  end.

(** [setActiveProvider(activeProvider)]; [active] is what the service's
    getter returns while it runs.  [updateTitleArea()] belongs to the
    base class and touches none of these fields. *)
Definition setActiveProvider (activeProvider active : option IWizeProvider)
    (this : WizeViewlet) : WizeViewlet :=
  let this := providerChangeDisposable_dispose this in
  let this :=
    match activeProvider with
    | Some p =>
        {| list_ := list_ this;
           providerChangeDisposable := Some p;
           listening := listening this ++ [p] |}
    | None =>
        {| list_ := list_ this;
           providerChangeDisposable := None;
           listening := listening this |}
    end in
  update active this.

(** A viewlet before [create]: [providerChangeDisposable] is
    [EmptyDisposable], the list is empty. *)
Definition constructor : WizeViewlet :=
  {| list_ := []; providerChangeDisposable := None; listening := [] |}.

(** The part of [create(parent)] that deals with providers:
    [this.setActiveProvider(this.wizeService.activeProvider)], after
    which [setActiveProvider] is subscribed to the service's
    [onDidChangeProvider]. *)
Definition create (active : option IWizeProvider) : WizeViewlet :=
  setActiveProvider active active constructor.

(** The viewlet's listener run for one delivery of the service. *)
Definition on_delivery (this : WizeViewlet)
    (d : WizeService.Delivery (IWizeProvider:=IWizeProvider)) : WizeViewlet :=
  setActiveProvider (WizeService.payload d) (WizeService.seen_activeProvider d)
                    this.

(** A viewlet created on a new service, after the deliveries the service
    has made since. *)
Definition after_deliveries
    (ds : list (WizeService.Delivery (IWizeProvider:=IWizeProvider)))
    : WizeViewlet :=
  foldl on_delivery (create None) ds.

(** The rows that are groups, and the rows that are resources. *)
Definition group_of (e : Element) : option IWizeResourceGroup :=
  match e with inl g => Some g | inr _ => None end.

Definition resource_of (e : Element) : option IWizeResource :=
  match e with inl _ => None | inr r => Some r end.

(** A series of calls of [setActiveProvider], each with its argument
    and with what the service's getter returns meanwhile. *)
Definition setActiveProvider_all
    (calls : list (option IWizeProvider * option IWizeProvider))
    (this : WizeViewlet) : WizeViewlet :=
  foldl (λ this c, setActiveProvider (fst c) (snd c) this) this calls.

(** What the list shows for a given active provider. *)
Definition rows_for (active : option IWizeProvider) : list Element :=
  match active with
  | Some p => elements (provider_resources p)
  | None => []
  end.
End Viewlet.

End WizeViewlet.

(** ** Concrete providers used in the examples *)

Module Sample.

Inductive Provider := git | svn | hg.

Global Instance Provider_eq_dec : EqDecision Provider.
Proof. solve_decision. Defined.

Definition id (p : Provider) : string :=
  match p with git => "git" | svn => "svn" | hg => "hg" end.

End Sample.

(** * Properties *)

(** ** Facts about the array primitives *)

Module JsFacts.
Import Js.

Section Array.
Context {A : Type} `{EqDecision A}.

Lemma indexOf_undefined (arr : list A) : indexOf arr None = -1.
Proof.
  unfold indexOf.
  destruct (list_find _ arr) as [[i x]|] eqn:E; [|done].
  apply list_find_Some in E as (_ & ? & _). discriminate.
Qed.

Lemma indexOf_absent (arr : list A) (x : A) :
  x ∉ arr → indexOf arr (Some x) = -1.
Proof.
  intros Hx. unfold indexOf.
  destruct (list_find _ arr) as [[i y]|] eqn:E; [|done].
  apply list_find_Some in E as (Hi & [= ->] & _).
  exfalso. apply Hx. by eapply list_elem_of_lookup_2.
Qed.

Lemma indexOf_present (arr : list A) (x : A) :
  x ∈ arr →
  ∃ i : nat, indexOf arr (Some x) = Z.of_nat i ∧ arr !! i = Some x
             ∧ x ∉ take i arr.
Proof.
  intros Hx. unfold indexOf.
  destruct (list_find _ arr) as [[i y]|] eqn:E.
  - apply list_find_Some in E as (Hi & [= ->] & Hlt).
    exists i. split_and!; [done..|].
    intros Hin. apply list_elem_of_lookup in Hin as [j Hj].
    assert (j < length (take i arr))%nat as Hlen by by eapply lookup_lt_Some.
    rewrite length_take in Hlen.
    rewrite lookup_take_lt in Hj by lia.
    by apply (Hlt j x Hj); [lia|].
  - exfalso. apply list_find_None in E.
    rewrite Forall_forall in E. by apply (E x).
Qed.

Lemma indexOf_nonneg_or_minus1 (arr : list A) (v : option A) :
  indexOf arr v = -1 ∨ 0 ≤ indexOf arr v.
Proof.
  unfold indexOf. destruct (list_find _ arr) as [[i y]|]; [right; lia|by left].
Qed.

Lemma indexOf_minus1_absent (arr : list A) (x : A) :
  indexOf arr (Some x) = -1 ↔ x ∉ arr.
Proof.
  split; [|apply indexOf_absent].
  intros E Hx. apply indexOf_present in Hx as (i & Hi & _). lia.
Qed.

Lemma indexOf_neg_absent (arr : list A) (x : A) :
  indexOf arr (Some x) < 0 ↔ x ∉ arr.
Proof.
  rewrite <- indexOf_minus1_absent.
  destruct (indexOf_nonneg_or_minus1 arr (Some x)); lia.
Qed.

Lemma indexOf_middle (l1 l2 : list A) (x : A) :
  x ∉ l1 → indexOf (l1 ++ (x :: l2)) (Some x) = Z.of_nat (length l1).
Proof.
  intros Hx. unfold indexOf.
  assert (list_find (λ y, Some y = Some x) (l1 ++ (x :: l2))
          = Some (length l1, x)) as ->; [|done].
  apply list_find_Some. split_and!.
  - by rewrite list_lookup_middle.
  - done.
  - intros j y Hj Hlt [= ->]. apply Hx.
    rewrite lookup_app_l in Hj by done. by eapply list_elem_of_lookup_2.
Qed.

Lemma splice1_middle (l1 l2 : list A) (x : A) :
  splice1 (l1 ++ (x :: l2)) (Z.of_nat (length l1)) = l1 ++ l2.
Proof. unfold splice1. rewrite Nat2Z.id. apply delete_middle. Qed.
End Array.

End JsFacts.

(** ** The provider registry *)

Module WizeServiceFacts.
Import Js JsFacts WizeService.

(** Unfold the plumbing of method bodies. *)
Ltac op_unfold :=
  unfold mbind, Op_bind, mret, Op_ret, get, throw, activeProvider,
    set__activeProvider, set__providers, activeProviderContextKey_set,
    _onDidChangeProvider_fire, _onDidChangeProvider_record, listener_reads
    in *.

Section Service.
Context {IWizeProvider : Type} `{EqDecision IWizeProvider}.
Context (id : IWizeProvider → string).

Local Abbreviation WizeService := (WizeService (IWizeProvider:=IWizeProvider)).
Local Abbreviation set_activeProvider := (WizeService.set_activeProvider id).
Local Abbreviation unregister := (WizeService.unregister id).
Local Abbreviation registerWizeProvider := (WizeService.registerWizeProvider id).
Local Abbreviation delivery_of := (WizeService.delivery_of id).
Local Abbreviation consistent := (WizeService.consistent id).
Local Abbreviation call := (WizeService.call id).
Local Abbreviation run := (WizeService.run id).
Local Abbreviation handles_released := (WizeService.handles_released id).

(** *** The setter *)

Lemma set_activeProvider_undefined (this : WizeService) :
  set_activeProvider None this = (this, Throw InvalidProvider).
Proof. reflexivity. Qed.

Lemma set_activeProvider_unregistered (this : WizeService) p :
  p ∉ _providers this →
  set_activeProvider (Some p) this = (this, Throw UnregisteredProvider).
Proof.
  intros Hp. unfold WizeService.set_activeProvider. op_unfold. simpl.
  by rewrite bool_decide_eq_true_2 by by apply indexOf_absent.
Qed.

Lemma set_activeProvider_registered (this : WizeService) p :
  p ∈ _providers this →
  set_activeProvider (Some p) this =
    ({| activeProviderContextKey := Some (id p);
        _activeProvider := Some p;
        _providers := _providers this;
        _onDidChangeProvider := _onDidChangeProvider this ++ [delivery_of p] |},
     Return ()).
Proof.
  intros Hp. unfold WizeService.set_activeProvider. op_unfold. simpl.
  by rewrite bool_decide_eq_false_2 by by rewrite indexOf_minus1_absent; intros ?.
Qed.

(** *** The release function *)

Lemma unregister_absent (this : WizeService) p :
  p ∉ _providers this → unregister p this = (this, Return ()).
Proof.
  intros Hp. unfold WizeService.unregister. op_unfold. simpl.
  by rewrite bool_decide_eq_true_2 by by apply indexOf_neg_absent.
Qed.

Lemma unregister_present (this : WizeService) p l1 l2 :
  _providers this = l1 ++ (p :: l2) → p ∉ l1 →
  unregister p this =
    let this1 :=
      {| activeProviderContextKey := activeProviderContextKey this;
         _activeProvider := _activeProvider this;
         _providers := l1 ++ l2;
         _onDidChangeProvider := _onDidChangeProvider this |} in
    if bool_decide (_activeProvider this = Some p)
    then set_activeProvider ((l1 ++ l2) !! 0%nat) this1
    else (this1, Return ()).
Proof.
  intros Hl Hp. unfold WizeService.unregister. op_unfold. simpl.
  rewrite Hl, indexOf_middle, splice1_middle by done.
  rewrite bool_decide_eq_false_2 by lia. simpl.
  by destruct (bool_decide (_activeProvider this = Some p)).
Qed.

(** *** Registration *)

Lemma registerWizeProvider_first (this : WizeService) p :
  _providers this = [] →
  registerWizeProvider p this =
    ({| activeProviderContextKey := Some (id p);
        _activeProvider := Some p;
        _providers := [p];
        _onDidChangeProvider := _onDidChangeProvider this ++ [delivery_of p] |},
     Return (toDisposable (unregister p))).
Proof.
  intros Hl. unfold WizeService.registerWizeProvider.
  unfold mbind at 1 2 3 4, Op_bind, get, set__providers. simpl.
  rewrite Hl. simpl.
  rewrite set_activeProvider_registered by (simpl; apply list_elem_of_here).
  done.
Qed.

Lemma registerWizeProvider_later (this : WizeService) p :
  _providers this ≠ [] →
  registerWizeProvider p this =
    ({| activeProviderContextKey := activeProviderContextKey this;
        _activeProvider := _activeProvider this;
        _providers := p :: _providers this;
        _onDidChangeProvider := _onDidChangeProvider this |},
     Return (toDisposable (unregister p))).
Proof.
  intros Hl. unfold WizeService.registerWizeProvider.
  unfold mbind at 1 2 3 4, Op_bind, get, set__providers. simpl.
  destruct (_providers this) as [|q l]; [done|]. done.
Qed.

Lemma registerWizeProvider_returns (this : WizeService) p :
  ∃ this',
    registerWizeProvider p this = (this', Return (toDisposable (unregister p)))
    ∧ _providers this' = p :: _providers this.
Proof.
  destruct (decide (_providers this = [])) as [E|E].
  - rewrite registerWizeProvider_first by done. eexists; split; [done|].
    simpl. by rewrite E.
  - rewrite registerWizeProvider_later by done. by eexists.
Qed.

Lemma registerWizeProvider_handle (this this' : WizeService) p h :
  registerWizeProvider p this = (this', Return h) →
  h = toDisposable (unregister p).
Proof.
  destruct (registerWizeProvider_returns this p) as (s & -> & _).
  by intros [= _ <-].
Qed.


(** *** Errors and effects of the setter *)

(** C3: assigning [activeProvider] throws the invalid-provider error
    exactly when the value is unset, throws the not-registered error
    exactly when the value is a provider absent from [_providers], and
    whenever it throws the whole object (providers, active provider,
    context key, deliveries made) is as before. *)
Theorem setActive_errors (provider : option IWizeProvider)
    (this this' : WizeService) (r : Completion unit) :
  set_activeProvider provider this = (this', r) →
  (r = Throw InvalidProvider ↔ provider = None)
  ∧ (r = Throw UnregisteredProvider ↔
       ∃ p, provider = Some p ∧ p ∉ _providers this)
  ∧ (∀ e, r = Throw e → this' = this).
Proof.
  destruct provider as [p|].
  - destruct (decide (p ∈ _providers this)) as [Hp|Hp].
    + rewrite set_activeProvider_registered by done. intros [= <- <-].
      split_and!; [split; discriminate| |discriminate].
      split; [discriminate|]. intros (q & [= <-] & ?). done.
    + rewrite set_activeProvider_unregistered by done. intros [= <- <-].
      split_and!; [split; discriminate| |done].
      split; [|done]. intros _. by exists p.
  - rewrite set_activeProvider_undefined. intros [= <- <-].
    split_and!; [done| |done].
    split; [discriminate|]. intros (q & [=] & _).
Qed.

(** C6: every assignment of [activeProvider] that returns stores the
    provider, sets the context key to the provider's [id], and makes
    exactly one delivery, carrying that provider; nothing in this depends
    on which provider was active before, so re-selecting the active
    provider delivers again. *)
Theorem setActive_success (provider : option IWizeProvider)
    (this this' : WizeService) :
  set_activeProvider provider this = (this', Return ()) →
  ∃ p, provider = Some p
       ∧ _activeProvider this' = Some p
       ∧ activeProviderContextKey this' = Some (id p)
       ∧ _providers this' = _providers this
       ∧ ∃ d, _onDidChangeProvider this' = _onDidChangeProvider this ++ [d]
              ∧ payload d = Some p.
Proof.
  destruct provider as [p|]; [|by rewrite set_activeProvider_undefined].
  destruct (decide (p ∈ _providers this)) as [Hp|Hp].
  - rewrite set_activeProvider_registered by done. intros [= <-].
    exists p. split_and!; [done..|]. by exists (delivery_of p).
  - by rewrite set_activeProvider_unregistered.
Qed.

(** *** Registration *)

(** C4: registering [p] on a service without providers makes [p] the
    active provider and makes exactly one delivery, carrying [p];
    registering on a service that has providers leaves the active
    provider and the context key alone and delivers nothing.  Either way
    the call returns a handle and [p] is the new front. *)
Theorem register_first_becomes_active (p : IWizeProvider) (this : WizeService) :
  ∃ this' h,
    registerWizeProvider p this = (this', Return h)
    ∧ _providers this' = p :: _providers this
    ∧ (_providers this = [] →
         _activeProvider this' = Some p
         ∧ activeProviderContextKey this' = Some (id p)
         ∧ ∃ d, _onDidChangeProvider this' = _onDidChangeProvider this ++ [d]
                ∧ payload d = Some p)
    ∧ (_providers this ≠ [] →
         _activeProvider this' = _activeProvider this
         ∧ activeProviderContextKey this' = activeProviderContextKey this
         ∧ _onDidChangeProvider this' = _onDidChangeProvider this).
Proof.
  destruct (decide (_providers this = [])) as [E|E].
  - rewrite registerWizeProvider_first by done. do 2 eexists.
    split_and!; [done|by rewrite E| |done].
    intros _. split_and!; [done..|]. by exists (delivery_of p).
  - rewrite registerWizeProvider_later by done. do 2 eexists.
    split_and!; done.
Qed.

Lemma run_register_providers (ps : list IWizeProvider) (cl : Client) :
  _providers (service (run (CallRegister <$> ps) cl))
  = reverse ps ++ _providers (service cl).
Proof.
  revert cl. induction ps as [|p ps IH]; intros cl; [done|].
  simpl. unfold WizeService.run in *. simpl. rewrite IH.
  destruct (registerWizeProvider_returns (service cl) p) as (s & Hs & Hl).
  rewrite Hs. simpl. rewrite Hl, reverse_cons, <- app_assoc. done.
Qed.

(** C5: after any sequence of registrations on a new service, the
    [providers] getter returns the registered providers latest first,
    that is, in the reverse of the order of registration. *)
Theorem providers_reverse_registration_order (ps : list IWizeProvider) :
  snd (providers (service (run (CallRegister <$> ps) startup)))
  = Return (reverse ps).
Proof.
  unfold providers. op_unfold. simpl.
  by rewrite run_register_providers, app_nil_r.
Qed.

(** *** Releasing a registration *)

(** C8: when [p] is registered and is not the active provider, invoking
    the handle that registering [p] returned removes the first
    occurrence of [p] from [_providers] and nothing else; the active
    provider, the context key and the deliveries made are untouched and
    the call returns. *)
Theorem release_inactive_frame (p : IWizeProvider)
    (this0 this0' this : WizeService) (h : IDisposable) :
  registerWizeProvider p this0 = (this0', Return h) →
  p ∈ _providers this →
  _activeProvider this ≠ Some p →
  ∃ l1 l2,
    _providers this = l1 ++ (p :: l2) ∧ (p ∉ l1)
    ∧ dispose h this =
        ({| activeProviderContextKey := activeProviderContextKey this;
            _activeProvider := _activeProvider this;
            _providers := l1 ++ l2;
            _onDidChangeProvider := _onDidChangeProvider this |},
         Return ()).
Proof.
  intros Hh Hp Ha. apply registerWizeProvider_handle in Hh as ->.
  destruct (list_elem_of_split_l _ _ Hp) as (l1 & l2 & Hl & Hn).
  exists l1, l2. split_and!; [done..|]. simpl.
  rewrite (unregister_present this p l1 l2) by done. simpl.
  by rewrite bool_decide_eq_false_2.
Qed.

(** Releasing the active provider while others remain: the front of what
    remains becomes active, with one delivery carrying it. *)
Lemma unregister_active_others_remain (this : WizeService) p q l1 l2 :
  _providers this = l1 ++ (p :: l2) → p ∉ l1 →
  _activeProvider this = Some p →
  (l1 ++ l2) !! 0%nat = Some q →
  unregister p this =
    ({| activeProviderContextKey := Some (id q);
        _activeProvider := Some q;
        _providers := l1 ++ l2;
        _onDidChangeProvider := _onDidChangeProvider this ++ [delivery_of q] |},
     Return ()).
Proof.
  intros Hl Hn Ha Hq. rewrite (unregister_present this p l1 l2) by done.
  simpl. rewrite bool_decide_eq_true_2, Hq by done.
  rewrite set_activeProvider_registered; [done|].
  simpl. by eapply list_elem_of_lookup_2.
Qed.

(** Releasing the active provider when it is the only one: the setter is
    handed [this._providers[0]] of an empty array and throws; the array
    has already been spliced, the active provider has not been touched. *)
Lemma unregister_active_last (this : WizeService) p :
  _providers this = [p] →
  _activeProvider this = Some p →
  unregister p this =
    ({| activeProviderContextKey := activeProviderContextKey this;
        _activeProvider := Some p;
        _providers := [];
        _onDidChangeProvider := _onDidChangeProvider this |},
     Throw InvalidProvider).
Proof.
  intros Hl Ha. rewrite (unregister_present this p [] []) by (done || apply not_elem_of_nil).
  simpl. rewrite bool_decide_eq_true_2 by done.
  by rewrite set_activeProvider_undefined, Ha.
Qed.

(** Whatever branch it takes, releasing [p] leaves [_providers] without the
    first occurrence of [p]. *)
Lemma unregister_providers (this this' : WizeService) p l1 l2 r :
  _providers this = l1 ++ (p :: l2) → p ∉ l1 →
  unregister p this = (this', r) →
  _providers this' = l1 ++ l2.
Proof.
  intros Hl Hn. rewrite (unregister_present this p l1 l2) by done. simpl.
  destruct (bool_decide _); [|by intros [= <- _]].
  destruct ((l1 ++ l2) !! 0%nat) as [q|] eqn:Hq.
  - rewrite set_activeProvider_registered
      by (simpl; by eapply list_elem_of_lookup_2).
    by intros [= <- _].
  - rewrite set_activeProvider_undefined. by intros [= <- _].
Qed.

(** *** What listeners observe *)

Lemma consistent_delivery_of p : consistent (delivery_of p).
Proof. done. Qed.

Lemma set_activeProvider_consistent provider (this this' : WizeService) r :
  set_activeProvider provider this = (this', r) →
  Forall consistent (_onDidChangeProvider this) →
  Forall consistent (_onDidChangeProvider this').
Proof.
  destruct provider as [p|];
    [|rewrite set_activeProvider_undefined; by intros [= <- _]].
  destruct (decide (p ∈ _providers this)) as [Hp|Hp].
  - rewrite set_activeProvider_registered by done. intros [= <- _] Hc.
    simpl. apply Forall_app. split; [done|].
    constructor; [apply consistent_delivery_of|constructor].
  - rewrite set_activeProvider_unregistered by done. by intros [= <- _].
Qed.

Lemma unregister_consistent p (this this' : WizeService) r :
  unregister p this = (this', r) →
  Forall consistent (_onDidChangeProvider this) →
  Forall consistent (_onDidChangeProvider this').
Proof.
  destruct (decide (p ∈ _providers this)) as [Hp|Hp].
  - destruct (list_elem_of_split_l _ _ Hp) as (l1 & l2 & Hl & Hn).
    rewrite (unregister_present this p l1 l2) by done. simpl.
    destruct (bool_decide _); [|by intros [= <- _]].
    intros Hs Hc. by eapply set_activeProvider_consistent in Hs.
  - rewrite unregister_absent by done. by intros [= <- _].
Qed.

Lemma call_handles_released c (cl : Client) :
  handles_released cl → handles_released (fst (call c cl)).
Proof.
  intros Hh. destruct c as [p|o|n]; simpl.
  - destruct (registerWizeProvider_returns (service cl) p) as (s & -> & _).
    simpl. apply Forall_app. split; [done|]. constructor; [by exists p|constructor].
  - by destruct (set_activeProvider o (service cl)).
  - destruct (handles cl !! n); [|done].
    by destruct (dispose _ (service cl)).
Qed.

Lemma call_consistent c (cl : Client) :
  handles_released cl →
  Forall consistent (_onDidChangeProvider (service cl)) →
  Forall consistent (_onDidChangeProvider (service (fst (call c cl)))).
Proof.
  intros Hh Hc. destruct c as [p|o|n]; simpl.
  - destruct (decide (_providers (service cl) = [])) as [E|E].
    + rewrite registerWizeProvider_first by done. simpl.
      apply Forall_app. split; [done|].
      constructor; [apply consistent_delivery_of|constructor].
    + by rewrite registerWizeProvider_later.
  - destruct (set_activeProvider o (service cl)) as [s r] eqn:Hs. simpl.
    by eapply set_activeProvider_consistent.
  - destruct (handles cl !! n) as [h|] eqn:Hn; [|done].
    eapply Forall_lookup_1 in Hh as (p & ->); [|done]. simpl.
    destruct (unregister p (service cl)) as [s r] eqn:Hs. simpl.
    by eapply unregister_consistent.
Qed.

Lemma run_consistent cs (cl : Client) :
  handles_released cl →
  Forall consistent (_onDidChangeProvider (service cl)) →
  Forall consistent (_onDidChangeProvider (service (run cs cl))).
Proof.
  revert cl. induction cs as [|c cs IH]; intros cl Hh Hc; [done|].
  apply IH; [by apply call_handles_released|by apply call_consistent].
Qed.

(** C9: when the emitter fires, the service already agrees with the
    value it hands out.  In every delivery made during any series of
    calls on a new service, a listener calling the [activeProvider]
    getter inside its callback gets the provider it was handed, and the
    context key holds that provider's [id].  And the deliveries are
    made: assigning a registered provider [p], whichever provider was
    active before, makes one delivery, in which the listener is handed
    [p], reads [p] from the getter and [id p] from the context key; the
    getter returns [p] after the call as well. *)
Theorem deliveries_consistent (cs : list Call) (this : WizeService)
    (p : IWizeProvider) :
  Forall consistent (_onDidChangeProvider (service (run cs startup)))
  ∧ (p ∈ _providers this →
     ∃ this' d,
       set_activeProvider (Some p) this = (this', Return ())
       ∧ _onDidChangeProvider this' = _onDidChangeProvider this ++ [d]
       ∧ payload d = Some p
       ∧ seen_activeProvider d = Some p
       ∧ seen_contextKey d = Some (id p)
       ∧ activeProvider this' = (this', Return (Some p))).
Proof.
  split; [apply run_consistent; constructor|].
  intros Hp. rewrite set_activeProvider_registered by done.
  eexists _, (delivery_of p). split_and!; done.
Qed.

(** *** Releasing again *)




(** *** The registry invariant, call by call *)

(** A call that returns keeps the active provider among the registered
    ones; the one call that breaks this, releasing the only provider
    while it is active, throws. *)
Lemma call_active_registered c (cl cl' : Client) :
  handles_released cl →
  active_registered (service cl) →
  call c cl = (cl', Return ()) →
  active_registered (service cl').
Proof.
  intros Hh Hinv. destruct c as [p|o|n]; simpl.
  - destruct (decide (_providers (service cl) = [])) as [E|E].
    + rewrite registerWizeProvider_first by done. intros [= <-] q. simpl.
      intros [= <-]. apply list_elem_of_here.
    + rewrite registerWizeProvider_later by done. intros [= <-] q. simpl.
      intros Hq. by apply list_elem_of_further, Hinv.
  - destruct (set_activeProvider o (service cl)) as [s r] eqn:Hs.
    intros [= <- ->]. simpl.
    destruct o as [p|]; [|by rewrite set_activeProvider_undefined in Hs].
    destruct (decide (p ∈ _providers (service cl))) as [Hp|Hp].
    + rewrite set_activeProvider_registered in Hs by done.
      injection Hs as <-. by intros q [= <-].
    + by rewrite set_activeProvider_unregistered in Hs.
  - destruct (handles cl !! n) as [h|] eqn:Hn; [|by intros [= <-]].
    eapply Forall_lookup_1 in Hh as (p & ->); [|done]. simpl.
    destruct (unregister p (service cl)) as [s r] eqn:Hs.
    intros [= <- ->]. simpl.
    destruct (decide (p ∈ _providers (service cl))) as [Hp|Hp];
      [|rewrite unregister_absent in Hs by done; by injection Hs as <-].
    destruct (list_elem_of_split_l _ _ Hp) as (l1 & l2 & Hl & Hn1).
    rewrite (unregister_present _ p l1 l2) in Hs by done. simpl in Hs.
    destruct (bool_decide_reflect (_activeProvider (service cl) = Some p))
      as [Ha|Ha].
    + destruct ((l1 ++ l2) !! 0%nat) as [q|] eqn:Hq;
        [|by rewrite set_activeProvider_undefined in Hs].
      rewrite set_activeProvider_registered in Hs
        by (simpl; by eapply list_elem_of_lookup_2).
      injection Hs as <-. intros q' [= <-]. simpl.
      by eapply list_elem_of_lookup_2.
    + injection Hs as <-. intros q. simpl. intros Hq.
      pose proof (Hinv q Hq) as Hin. rewrite Hl in Hin.
      apply elem_of_app in Hin as [Hin|Hin]; apply elem_of_app; [by left|].
      apply elem_of_cons in Hin as [->|Hin]; [done|by right].
Qed.

End Service.

(** *** The calls on concrete providers *)

Import Sample.

(** C1: on a service whose only provider is the active one, invoking the
    release handle splices the provider out and then throws the
    invalid-provider error from the setter: the active provider and the
    context key still name the removed provider and nothing is
    delivered, where the active provider should have become unset with
    one delivery carrying the unset value. *)
Theorem release_last_active_throws :
  let cl := run Sample.id [CallRegister git] startup in
  service cl =
    {| activeProviderContextKey := Some "git";
       _activeProvider := Some git;
       _providers := [git];
       _onDidChangeProvider := [delivery_of Sample.id git] |}
  ∧ call Sample.id (CallDispose 0) cl =
      ({| service :=
            {| activeProviderContextKey := Some "git";
               _activeProvider := Some git;
               _providers := [];
               _onDidChangeProvider := [delivery_of Sample.id git] |};
          handles := handles cl |},
       Throw InvalidProvider).
Proof. split; reflexivity. Qed.

(** C2: after registering one provider and releasing it, the service
    holds no provider while its active provider is still the released
    one; a further invocation of the handle returns normally and leaves
    that state in place, so the state after a completed call has an
    active provider that is not registered. *)
Theorem stale_active_after_release :
  let cl := run Sample.id [CallRegister git; CallDispose 0] startup in
  call Sample.id (CallDispose 0) cl = (cl, Return ())
  ∧ _providers (service cl) = []
  ∧ _activeProvider (service cl) = Some git
  ∧ ¬ active_registered (service cl)
  ∧ ¬ empty_unset (service cl).
Proof.
  split_and!; [reflexivity..| |].
  - intros Hinv. specialize (Hinv git eq_refl). by apply elem_of_nil in Hinv.
  - intros Hinv. specialize (Hinv eq_refl). discriminate.
Qed.


Lemma setActive_errors_witness :
  let this := service (run Sample.id [CallRegister git] startup) in
  set_activeProvider Sample.id (Some svn) this = (this, Throw UnregisteredProvider)
  ∧ ((@Throw unit UnregisteredProvider = Throw InvalidProvider ↔ Some svn = None)
     ∧ (@Throw unit UnregisteredProvider = Throw UnregisteredProvider ↔
          ∃ p, Some svn = Some p ∧ p ∉ _providers this)
     ∧ (∀ e, @Throw unit UnregisteredProvider = Throw e → this = this)).
Proof.
  intros this. split; [reflexivity|].
  apply (setActive_errors Sample.id (Some svn) this this); reflexivity.
Defined.

Lemma setActive_success_witness :
  let this := service (run Sample.id [CallRegister git] startup) in
  let this' :=
    {| activeProviderContextKey := Some "git";
       _activeProvider := Some git;
       _providers := [git];
       _onDidChangeProvider :=
         [delivery_of Sample.id git; delivery_of Sample.id git] |} in
  _activeProvider this = Some git
  ∧ set_activeProvider Sample.id (Some git) this = (this', Return ())
  ∧ ∃ p, Some git = Some p
         ∧ _activeProvider this' = Some p
         ∧ activeProviderContextKey this' = Some (Sample.id p)
         ∧ _providers this' = _providers this
         ∧ ∃ d, _onDidChangeProvider this' = _onDidChangeProvider this ++ [d]
                ∧ payload d = Some p.
Proof.
  intros this this'. split_and!; [reflexivity..|].
  apply (setActive_success Sample.id (Some git) this this'); reflexivity.
Defined.

Lemma release_inactive_frame_witness :
  let cl := run Sample.id [CallRegister git; CallRegister svn] startup in
  let this := service cl in
  registerWizeProvider Sample.id svn (service (run Sample.id [CallRegister git] startup))
    = (this, Return (toDisposable (unregister Sample.id svn)))
  ∧ svn ∈ _providers this
  ∧ _activeProvider this ≠ Some svn
  ∧ ∃ l1 l2,
      _providers this = l1 ++ (svn :: l2) ∧ (svn ∉ l1)
      ∧ dispose (toDisposable (unregister Sample.id svn)) this =
          ({| activeProviderContextKey := activeProviderContextKey this;
              _activeProvider := _activeProvider this;
              _providers := l1 ++ l2;
              _onDidChangeProvider := _onDidChangeProvider this |},
           Return ()).
Proof.
  intros cl this.
  assert (svn ∈ _providers this) as Hin by apply list_elem_of_here.
  assert (_activeProvider this ≠ Some svn) as Hact by discriminate.
  split_and!; [reflexivity|done..|].
  apply (release_inactive_frame Sample.id svn
           (service (run Sample.id [CallRegister git] startup)) this this);
    [reflexivity|done..].
Defined.


Lemma deliveries_consistent_witness :
  let cs := [CallRegister git; CallRegister svn; CallSetActive (Some svn);
             CallDispose 1] in
  let this := service (run Sample.id [CallRegister git; CallRegister svn] startup) in
  _activeProvider this = Some git
  ∧ svn ∈ _providers this
  ∧ Forall (consistent Sample.id)
           (_onDidChangeProvider (service (run Sample.id cs startup)))
  ∧ ∃ this' d,
      set_activeProvider Sample.id (Some svn) this = (this', Return ())
      ∧ _onDidChangeProvider this' = _onDidChangeProvider this ++ [d]
      ∧ payload d = Some svn
      ∧ seen_activeProvider d = Some svn
      ∧ seen_contextKey d = Some "svn"
      ∧ activeProvider this' = (this', Return (Some svn)).
Proof.
  intros cs this.
  assert (svn ∈ _providers this) as Hin by apply list_elem_of_here.
  destruct (deliveries_consistent Sample.id cs this svn) as [Hall Hset].
  split_and!; [reflexivity|done|done|by apply Hset].
Defined.

End WizeServiceFacts.

(** ** The preview toggle *)

Module WizePreviewFacts.
Import WizePreview.

Lemma set_enabled_keeps_enabled (b : bool) (w : Window) :
  enabled (set_enabled b w) = enabled w.
Proof. reflexivity. Qed.

Lemma assign_all_keeps_enabled (bs : list bool) (w : Window) :
  enabled (assign_all bs w) = enabled w.
Proof.
  revert w. induction bs as [|b bs IH]; intros w; [done|].
  unfold assign_all in *. simpl. by rewrite IH.
Qed.

(** The stored value is what the next start of the window reads. *)
Lemma load_after_set_enabled (b : bool) (w : Window) :
  enabled (load (localStorage (set_enabled b w))) = b.
Proof.
  unfold enabled, load, set_enabled. simpl.
  rewrite lookup_insert_eq. by destruct b.
Qed.

(** C10: whatever assignments to [WizePreview.enabled] have been made
    since the class was loaded, the getter returns the value read from
    storage at load time; an assignment writes 'true' or 'false' under
    the storage key, leaves every other key alone, and does not change
    what the getter returns. *)
Theorem enabled_is_startup_value (storage : gmap string string)
    (bs : list bool) (b : bool) :
  let w := assign_all bs (load storage) in
  enabled w = bool_decide (storage !! key = Some "true")
  ∧ enabled (set_enabled b w) = bool_decide (storage !! key = Some "true")
  ∧ localStorage (set_enabled b w)
      = <[key := if b then "true" else "false"]> (localStorage w)
  ∧ (∀ k, k ≠ key → localStorage (set_enabled b w) !! k = localStorage w !! k).
Proof.
  intros w.
  assert (enabled w = bool_decide (storage !! key = Some "true")) as Hw
    by (unfold w; by rewrite assign_all_keeps_enabled).
  split_and!; [done|by rewrite set_enabled_keeps_enabled|done|].
  intros k Hk. unfold set_enabled. simpl. by rewrite lookup_insert_ne.
Qed.

(** With nothing stored, enabling the preview and reading the toggle
    back in the same window still yields [false]. *)
Example enable_then_read :
  enabled (set_enabled true (load ∅)) = false.
Proof. reflexivity. Qed.

End WizePreviewFacts.

(** ** The provider registry: further properties *)

Module WizeServiceMore.
Import Js JsFacts WizeService WizeServiceFacts.

Section Service.
Context {IWizeProvider : Type} `{EqDecision IWizeProvider}.
Context (id : IWizeProvider → string).

Local Abbreviation WizeService := (WizeService (IWizeProvider:=IWizeProvider)).
Local Abbreviation set_activeProvider := (WizeService.set_activeProvider id).
Local Abbreviation unregister := (WizeService.unregister id).
Local Abbreviation registerWizeProvider := (WizeService.registerWizeProvider id).
Local Abbreviation activated := (WizeService.activated id).
Local Abbreviation call := (WizeService.call id).
Local Abbreviation run := (WizeService.run id).
Local Abbreviation all_returned := (WizeService.all_returned id).
Local Abbreviation handles_released := (WizeService.handles_released id).

(** *** The outcomes of each call, case by case *)

Lemma set_activeProvider_cases provider (this : WizeService) :
  (provider = None
   ∧ set_activeProvider provider this = (this, Throw InvalidProvider))
  ∨ (∃ p, provider = Some p ∧ (p ∉ _providers this)
          ∧ set_activeProvider provider this = (this, Throw UnregisteredProvider))
  ∨ (∃ p, provider = Some p ∧ p ∈ _providers this
          ∧ set_activeProvider provider this = (activated p this, Return ())).
Proof.
  destruct provider as [p|]; [|by left].
  right. destruct (decide (p ∈ _providers this)) as [Hp|Hp].
  - right. exists p. split_and!; [done..|].
    by rewrite set_activeProvider_registered.
  - left. exists p. split_and!; [done..|].
    by rewrite set_activeProvider_unregistered.
Qed.

Lemma registerWizeProvider_cases p (this : WizeService) :
  (_providers this = []
   ∧ registerWizeProvider p this
     = (activated p (with_providers [p] this),
        Return (toDisposable (unregister p))))
  ∨ (_providers this ≠ []
     ∧ registerWizeProvider p this
       = (with_providers (p :: _providers this) this,
          Return (toDisposable (unregister p)))).
Proof.
  destruct (decide (_providers this = [])) as [E|E]; [left|right].
  - split; [done|]. by rewrite registerWizeProvider_first.
  - split; [done|]. by rewrite registerWizeProvider_later.
Qed.

Lemma lookup_0_None {A} (l : list A) : l !! 0%nat = None → l = [].
Proof. by destruct l. Qed.

Lemma unregister_cases p (this : WizeService) :
  ((p ∉ _providers this) ∧ unregister p this = (this, Return ()))
  ∨ ∃ l1 l2,
      _providers this = l1 ++ (p :: l2) ∧ (p ∉ l1)
      ∧ ((_activeProvider this ≠ Some p
          ∧ unregister p this = (with_providers (l1 ++ l2) this, Return ()))
         ∨ (_activeProvider this = Some p
            ∧ ∃ q, (l1 ++ l2) !! 0%nat = Some q
                   ∧ unregister p this
                     = (activated q (with_providers (l1 ++ l2) this), Return ()))
         ∨ (_activeProvider this = Some p ∧ l1 = [] ∧ l2 = []
            ∧ unregister p this
              = (with_providers [] this, Throw InvalidProvider))).
Proof.
  destruct (decide (p ∈ _providers this)) as [Hp|Hp];
    [right|left; split; [done|by apply unregister_absent]].
  destruct (list_elem_of_split_l _ _ Hp) as (l1 & l2 & Hl & Hn).
  exists l1, l2. split_and!; [done..|].
  rewrite (unregister_present id this p l1 l2) by done. simpl.
  destruct (bool_decide_reflect (_activeProvider this = Some p)) as [Ha|Ha];
    [right|by left].
  destruct ((l1 ++ l2) !! 0%nat) as [q|] eqn:Hq.
  - left. split; [done|]. exists q. split; [done|].
    rewrite set_activeProvider_registered; [done|].
    simpl. by eapply list_elem_of_lookup_2.
  - right. apply lookup_0_None, app_eq_nil in Hq as [-> ->].
    split_and!; [done..|]. by rewrite set_activeProvider_undefined.
Qed.

(** *** Invariants of every series of calls *)

Ltac state_simpl :=
  unfold WizeService.activated, with_providers, mbind, Op_bind,
    set__activeProvider, set__providers, activeProviderContextKey_set,
    _onDidChangeProvider_fire, _onDidChangeProvider_record, listener_reads,
    activeProvider, mret, Op_ret, get in *; simpl in *.

Lemma call_preserves (P : WizeService → Prop) :
  (∀ p this, P this → P (fst (registerWizeProvider p this))) →
  (∀ o this, P this → P (fst (set_activeProvider o this))) →
  (∀ p this, P this → P (fst (unregister p this))) →
  ∀ c (cl : Client), handles_released cl →
    P (service cl) → P (service (fst (call c cl))).
Proof.
  intros Hr Hs Hu c cl Hh HP. destruct c as [p|o|n]; simpl.
  - specialize (Hr p _ HP).
    destruct (registerWizeProvider_returns id (service cl) p) as (s & Hs' & _).
    rewrite Hs' in *. done.
  - specialize (Hs o _ HP).
    by destruct (set_activeProvider o (service cl)).
  - destruct (handles cl !! n) as [h|] eqn:Hn; [|done].
    eapply Forall_lookup_1 in Hh as (p & ->); [|done]. simpl.
    specialize (Hu p _ HP). by destruct (unregister p (service cl)).
Qed.

Lemma run_preserves (P : WizeService → Prop) :
  (∀ p this, P this → P (fst (registerWizeProvider p this))) →
  (∀ o this, P this → P (fst (set_activeProvider o this))) →
  (∀ p this, P this → P (fst (unregister p this))) →
  ∀ cs (cl : Client), handles_released cl →
    P (service cl) → P (service (run cs cl)).
Proof.
  intros Hr Hs Hu cs. induction cs as [|c cs IH]; intros cl Hh HP; [done|].
  apply IH; [by apply call_handles_released|by apply call_preserves].
Qed.

(** X1: no delivery ever carries the unset value.  The setter throws on
    [undefined] before it reaches the emitter, so whatever calls are
    made, every delivery carries a provider. *)
Theorem deliveries_never_unset (cs : list Call) :
  Forall (λ d, is_Some (payload d))
         (_onDidChangeProvider (service (run cs startup))).
Proof.
  apply (run_preserves
           (λ this, Forall (λ d, is_Some (payload d)) (_onDidChangeProvider this)));
    [| | |constructor|constructor].
  - intros p this HP.
    destruct (registerWizeProvider_cases p this) as [[_ ->]|[_ ->]];
      state_simpl; [|done].
    apply Forall_app; split; [done|]. by repeat constructor.
  - intros o this HP.
    destruct (set_activeProvider_cases o this)
      as [[_ ->]|[(p & _ & _ & ->)|(p & _ & _ & ->)]]; state_simpl; [done..|].
    apply Forall_app; split; [done|]. by repeat constructor.
  - intros p this HP.
    destruct (unregister_cases p this)
      as [[_ ->]|(l1 & l2 & _ & _ & [[_ ->]|[(_ & q & _ & ->)|(_ & _ & _ & ->)]])];
      state_simpl; [done..| |done].
    apply Forall_app; split; [done|]. by repeat constructor.
Qed.

(** X2: the 'wize.provider' context key always holds the [id] of the
    stored active provider (and is unset when that is), after any series
    of calls, including calls that threw. *)
Theorem contextKey_mirrors_active (cs : list Call) :
  activeProviderContextKey (service (run cs startup))
  = id <$> _activeProvider (service (run cs startup)).
Proof.
  apply (run_preserves
           (λ this, activeProviderContextKey this = id <$> _activeProvider this));
    [| | |constructor|done].
  - intros p this HP.
    by destruct (registerWizeProvider_cases p this) as [[_ ->]|[_ ->]].
  - intros o this HP.
    by destruct (set_activeProvider_cases o this)
      as [[_ ->]|[(p & _ & _ & ->)|(p & _ & _ & ->)]].
  - intros p this HP.
    by destruct (unregister_cases p this)
      as [[_ ->]|(l1 & l2 & _ & _ & [[_ ->]|[(_ & q & _ & ->)|(_ & _ & _ & ->)]])].
Qed.

Lemma run_registered_active cs (cl : Client) :
  handles_released cl →
  (_providers (service cl) = []
   ∨ ∃ p, _activeProvider (service cl) = Some p ∧ p ∈ _providers (service cl)) →
  _providers (service (run cs cl)) = []
  ∨ ∃ p, _activeProvider (service (run cs cl)) = Some p
         ∧ p ∈ _providers (service (run cs cl)).
Proof.
  intros Hh H0.
  apply (run_preserves
           (λ this, _providers this = []
                    ∨ ∃ p, _activeProvider this = Some p ∧ p ∈ _providers this));
    [| | |done|done].
  - intros p this HP. right.
    destruct (registerWizeProvider_cases p this) as [[_ ->]|[E ->]];
      state_simpl.
    + exists p. split; [done|apply list_elem_of_here].
    + destruct HP as [?|(a & Ha & Hin)]; [done|].
      exists a. split; [done|by apply list_elem_of_further].
  - intros o this HP.
    destruct (set_activeProvider_cases o this)
      as [[_ ->]|[(p & _ & _ & ->)|(p & _ & Hp & ->)]]; state_simpl; [done..|].
    right. by exists p.
  - intros p this HP.
    destruct (unregister_cases p this)
      as [[_ ->]|(l1 & l2 & Hl & _ &
                  [[Ha ->]|[(_ & q & Hq & ->)|(_ & _ & _ & ->)]])];
      state_simpl; [done| | |by left].
    + destruct HP as [E|(a & Ha' & Hin)];
        [rewrite Hl in E; by destruct l1|].
      right. exists a. split; [done|].
      rewrite Hl in Hin.
      apply elem_of_app in Hin as [Hin|Hin]; apply elem_of_app; [by left|].
      apply elem_of_cons in Hin as [->|Hin]; [congruence|by right].
    + right. exists q. split; [done|]. by eapply list_elem_of_lookup_2.
Qed.


(** X3: whenever at least one provider is registered, an active provider
    is set and it is one of the registered ones; this holds after any
    series of calls, whether or not some of them threw. *)
Theorem registered_implies_active (cs : list Call) :
  _providers (service (run cs startup)) = []
  ∨ ∃ p, _activeProvider (service (run cs startup)) = Some p
         ∧ p ∈ _providers (service (run cs startup)).
Proof. apply run_registered_active; [constructor|by left]. Qed.

Lemma run_handles_released cs (cl : Client) :
  handles_released cl → handles_released (run cs cl).
Proof.
  revert cl. induction cs as [|c cs IH]; intros cl Hh; [done|].
  by apply IH, call_handles_released.
Qed.

Lemma run_active_stays_set cs (cl : Client) :
  handles_released cl →
  is_Some (_activeProvider (service cl)) →
  is_Some (_activeProvider (service (run cs cl))).
Proof.
  apply (run_preserves (λ this, is_Some (_activeProvider this))).
  - intros p this HP.
    by destruct (registerWizeProvider_cases p this) as [[_ ->]|[_ ->]].
  - intros o this HP.
    by destruct (set_activeProvider_cases o this)
      as [[_ ->]|[(p & _ & _ & ->)|(p & _ & _ & ->)]].
  - intros p this HP.
    by destruct (unregister_cases p this)
      as [[_ ->]|(l1 & l2 & _ & _ & [[_ ->]|[(_ & q & _ & ->)|(_ & _ & _ & ->)]])].
Qed.

Lemma run_without_register cs :
  existsb is_register cs = false → run cs startup = startup.
Proof.
  induction cs as [|c cs IH]; [done|]. simpl.
  intros [Hc Hcs]%orb_false_elim.
  destruct c as [p|o|n]; [done| |by apply IH].
  unfold WizeService.run in *. simpl.
  by destruct o as [p|]; apply IH.
Qed.

Lemma run_with_register cs (cl : Client) :
  handles_released cl →
  (_providers (service cl) = []
   ∨ ∃ p, _activeProvider (service cl) = Some p ∧ p ∈ _providers (service cl)) →
  existsb is_register cs = true →
  is_Some (_activeProvider (service (run cs cl))).
Proof.
  revert cl. induction cs as [|c cs IH]; intros cl Hh H0; [done|].
  simpl. intros [Hc|Hcs]%orb_true_elim.
  - destruct c as [p| |]; [|done..].
    change (run (CallRegister p :: cs) cl)
      with (run cs (fst (call (CallRegister p) cl))).
    apply run_active_stays_set; [by apply call_handles_released|].
    simpl.
    destruct (registerWizeProvider_cases p (service cl)) as [[_ ->]|[E ->]];
      [done|].
    destruct H0 as [?|(a & Ha & _)]; [done|]. simpl. by rewrite Ha.
  - change (run (c :: cs) cl) with (run cs (fst (call c cl))).
    apply IH; [by apply call_handles_released| |done].
    by apply (run_registered_active [c]).
Qed.

(** X4: after any series of calls on a new service, the active provider
    is unset exactly when no registration was ever made: the first
    registration sets it and no later call, release included, clears
    it. *)
Theorem active_unset_iff_never_registered (cs : list Call) :
  _activeProvider (service (run cs startup)) = None
  ↔ existsb is_register cs = false.
Proof.
  split.
  - intros Hnone. destruct (existsb is_register cs) eqn:E; [|done].
    apply (run_with_register cs startup) in E as [a Ha];
      [congruence|constructor|by left].
  - intros E. by rewrite run_without_register.
Qed.

(** X17: however many providers are registered in a row on a new
    service, the one registered first is the active provider at the end,
    and the only delivery made is the one that announced it. *)
Theorem first_registered_stays_active (ps : list IWizeProvider) :
  _activeProvider (service (run (CallRegister <$> ps) startup)) = head ps
  ∧ _onDidChangeProvider (service (run (CallRegister <$> ps) startup))
    = option_list (delivery_of id <$> head ps).
Proof.
  destruct ps as [|p ps]; [done|].
  assert (∀ (cl : Client), _providers (service cl) ≠ [] →
            service (run (CallRegister <$> ps) cl)
            = with_providers (reverse ps ++ _providers (service cl)) (service cl))
    as Hrun.
  { induction ps as [|q ps IH]; intros cl Hne.
    - simpl. by destruct (service cl).
    - simpl.
      change (run (CallRegister q :: (CallRegister <$> ps)) cl)
        with (run (CallRegister <$> ps) (fst (call (CallRegister q) cl))).
      simpl. rewrite registerWizeProvider_later by done. simpl.
      rewrite IH by done. simpl.
      by rewrite reverse_cons, <- app_assoc. }
  rewrite fmap_cons.
  change (run (CallRegister p :: (CallRegister <$> ps)) startup)
    with (run (CallRegister <$> ps) (fst (call (CallRegister p) startup))).
  assert (service (fst (call (CallRegister p) startup))
          = activated p (with_providers [p] constructor)) as Hfirst.
  { simpl. by rewrite registerWizeProvider_first. }
  rewrite Hrun by by rewrite Hfirst. by rewrite Hfirst.
Qed.

(** *** Releasing *)

(** X5: invoking a release handle throws exactly when its provider is
    the active one and the only one registered; the error is then the
    setter's invalid-provider error, never the not-registered one. *)
Theorem release_throws_iff (p : IWizeProvider) (this : WizeService) (e : Error) :
  snd (dispose (toDisposable (unregister p)) this) = Throw e
  ↔ e = InvalidProvider
    ∧ _providers this = [p]
    ∧ _activeProvider this = Some p.
Proof.
  simpl. split.
  - destruct (unregister_cases p this)
      as [[_ ->]|(l1 & l2 & Hl & _ &
                  [[_ ->]|[(_ & q & _ & ->)|(Ha & -> & -> & ->)]])];
      simpl; [done..|].
    by intros [= <-].
  - intros (-> & Hl & Ha). by rewrite unregister_active_last.
Qed.

(** X6: releasing the active provider while another registration
    remains makes the front of the remaining array the active provider,
    sets the context key to its [id], makes one delivery carrying it,
    and returns. *)
Theorem release_active_promotes_front (p : IWizeProvider) (this : WizeService) :
  _activeProvider this = Some p →
  p ∈ _providers this →
  _providers this ≠ [p] →
  ∃ q l1 l2 this',
    _providers this = l1 ++ (p :: l2) ∧ (p ∉ l1)
    ∧ (l1 ++ l2) !! 0%nat = Some q
    ∧ unregister p this = (this', Return ())
    ∧ _providers this' = l1 ++ l2
    ∧ _activeProvider this' = Some q
    ∧ activeProviderContextKey this' = Some (id q)
    ∧ _onDidChangeProvider this'
      = _onDidChangeProvider this ++ [delivery_of id q].
Proof.
  intros Ha Hp Hne.
  destruct (unregister_cases p this)
    as [[? _]|(l1 & l2 & Hl & Hn &
               [[? _]|[(_ & q & Hq & Hu)|(_ & -> & -> & _)]])]; [done|done| |done].
  exists q, l1, l2, (activated q (with_providers (l1 ++ l2) this)).
  split_and!; done.
Qed.

(** X7: in every branch, the throwing one included, invoking the handle
    of a registered provider removes the first occurrence of that
    provider from the array and leaves every other entry in place. *)
Theorem release_removes_first_occurrence (p : IWizeProvider) (this : WizeService) :
  p ∈ _providers this →
  ∃ l1 l2,
    _providers this = l1 ++ (p :: l2) ∧ (p ∉ l1)
    ∧ _providers (fst (unregister p this)) = l1 ++ l2.
Proof.
  intros Hp.
  destruct (unregister_cases p this)
    as [[? _]|(l1 & l2 & Hl & Hn &
               [[_ ->]|[(_ & q & _ & ->)|(_ & -> & -> & ->)]])]; [done| | |];
    eexists _, _; split_and!; done.
Qed.

(** X8: registering a provider on a service that already has providers
    and releasing it straight away, the provider not being the active
    one, gives back the service exactly as it was. *)
Theorem register_release_round_trip (p : IWizeProvider) (this : WizeService) :
  _providers this ≠ [] →
  _activeProvider this ≠ Some p →
  (registerWizeProvider p ≫= dispose) this = (this, Return ()).
Proof.
  intros Hne Ha. unfold mbind, Op_bind.
  rewrite registerWizeProvider_later by done. simpl.
  rewrite (unregister_present id _ p [] (_providers this))
    by (done || apply not_elem_of_nil).
  simpl. rewrite bool_decide_eq_false_2 by done. by destruct this.
Qed.

(** X9: once the only registration of a provider has been released,
    assigning that provider to [activeProvider] throws the
    not-registered error and changes nothing. *)
Theorem released_provider_cannot_be_activated (p : IWizeProvider)
    (this : WizeService) (l1 l2 : list IWizeProvider) :
  _providers this = l1 ++ (p :: l2) → p ∉ l1 → p ∉ l2 →
  set_activeProvider (Some p) (fst (unregister p this))
  = (fst (unregister p this), Throw UnregisteredProvider).
Proof.
  intros Hl Hn1 Hn2. apply set_activeProvider_unregistered.
  destruct (unregister p this) as [this1 r1] eqn:Hu. simpl.
  rewrite (unregister_providers id this this1 p l1 l2 r1) by done.
  by apply not_elem_of_app.
Qed.

(** *** Deliveries per call *)

Lemma delivered_app (this this' : WizeService) ds :
  _onDidChangeProvider this' = _onDidChangeProvider this ++ ds →
  delivered this this' = ds.
Proof. intros E. unfold delivered. by rewrite E, drop_app_length. Qed.

Lemma delivered_same (this this' : WizeService) :
  _onDidChangeProvider this' = _onDidChangeProvider this →
  delivered this this' = [].
Proof. intros E. apply delivered_app. by rewrite app_nil_r. Qed.

(** X10: a call makes at most one delivery and never removes an earlier
    one; a call that throws makes none. *)
Theorem call_delivers_at_most_once (cs : list Call) (c : Call) :
  let before := service (run cs startup) in
  let after := service (fst (call c (run cs startup))) in
  _onDidChangeProvider after
    = _onDidChangeProvider before ++ delivered before after
  ∧ (length (delivered before after) ≤ 1)%nat
  ∧ (returned (snd (call c (run cs startup))) = false →
     delivered before after = []).
Proof.
  pose proof (run_handles_released cs startup) as Hh.
  specialize (Hh ltac:(constructor)).
  set (cl := run cs startup) in *. simpl.
  destruct c as [p|o|n]; simpl.
  - destruct (registerWizeProvider_cases p (service cl)) as [[_ ->]|[_ ->]];
      simpl.
    + rewrite (delivered_app _ _ [delivery_of id p]) by done.
      split_and!; [done|simpl; lia|done].
    + rewrite delivered_same by done.
      split_and!; [by rewrite app_nil_r|simpl; lia|done].
  - destruct (set_activeProvider_cases o (service cl))
      as [[_ ->]|[(p & _ & _ & ->)|(p & _ & _ & ->)]]; simpl.
    + rewrite delivered_same by done.
      split_and!; [by rewrite app_nil_r|simpl; lia|done].
    + rewrite delivered_same by done.
      split_and!; [by rewrite app_nil_r|simpl; lia|done].
    + rewrite (delivered_app _ _ [delivery_of id p]) by done.
      split_and!; [done|simpl; lia|done].
  - destruct (handles cl !! n) as [h|] eqn:Hn; simpl.
    + eapply Forall_lookup_1 in Hh as (p & ->); [|done]. simpl.
      destruct (unregister_cases p (service cl))
        as [[_ ->]|(l1 & l2 & _ & _ &
                    [[_ ->]|[(_ & q & _ & ->)|(_ & _ & _ & ->)]])]; simpl.
      * rewrite delivered_same by done.
        split_and!; [by rewrite app_nil_r|simpl; lia|done].
      * rewrite delivered_same by done.
        split_and!; [by rewrite app_nil_r|simpl; lia|done].
      * rewrite (delivered_app _ _ [delivery_of id q]) by done.
        split_and!; [done|simpl; lia|done].
      * rewrite delivered_same by done.
        split_and!; [by rewrite app_nil_r|simpl; lia|done].
    + rewrite delivered_same by done.
      split_and!; [by rewrite app_nil_r|simpl; lia|done].
Qed.

(** *** Series of calls none of which throws *)

Lemma call_empty_unset c (cl cl' : Client) :
  handles_released cl →
  active_registered (service cl) →
  empty_unset (service cl) →
  call c cl = (cl', Return ()) →
  empty_unset (service cl').
Proof.
  intros Hh Hreg Hemp. destruct c as [p|o|n]; simpl.
  - destruct (registerWizeProvider_cases p (service cl)) as [[_ ->]|[_ ->]];
      by intros [= <-].
  - destruct (set_activeProvider_cases o (service cl))
      as [[_ ->]|[(p & _ & _ & ->)|(p & _ & Hp & ->)]]; [done..|].
    intros [= <-] E. simpl in E. rewrite E in Hp. by apply elem_of_nil in Hp.
  - destruct (handles cl !! n) as [h|] eqn:Hn; [|by intros [= <-]].
    eapply Forall_lookup_1 in Hh as (p & ->); [|done]. simpl.
    destruct (unregister_cases p (service cl))
      as [[_ ->]|(l1 & l2 & Hl & _ &
                  [[Ha ->]|[(_ & q & Hq & ->)|(_ & _ & _ & ->)]])];
      [by intros [= <-]| | |done].
    + intros [= <-] E. simpl in *. apply app_eq_nil in E as [-> ->].
      destruct (_activeProvider (service cl)) as [a|] eqn:Hact; [|done].
      specialize (Hreg a Hact). rewrite Hl in Hreg.
      apply list_elem_of_singleton in Hreg as ->. done.
    + intros [= <-] E. simpl in *. by rewrite E in Hq.
Qed.

Lemma run_no_throw cs (cl : Client) :
  handles_released cl →
  active_registered (service cl) →
  empty_unset (service cl) →
  all_returned cs cl = true →
  active_registered (service (run cs cl)) ∧ empty_unset (service (run cs cl)).
Proof.
  revert cl. induction cs as [|c cs IH]; intros cl Hh Hreg Hemp; [done|].
  simpl. intros [Hc Hcs]%andb_prop.
  destruct (call c cl) as [cl' r] eqn:Hcall. simpl in *.
  destruct r as [[]|e]; [|done].
  apply IH; [|by eapply call_active_registered
                                   |by eapply call_empty_unset|done].
  replace cl' with (fst (call c cl)) by by rewrite Hcall.
  by apply call_handles_released.
Qed.

(** X11: as long as no call has thrown, the registry is in order: the
    active provider, if set, is registered, and with no provider
    registered no provider is active. *)
Theorem no_throw_keeps_registry_invariant (cs : list Call) :
  all_returned cs startup = true →
  active_registered (service (run cs startup))
  ∧ empty_unset (service (run cs startup)).
Proof. by apply run_no_throw; [constructor|..]. Qed.

End Service.

(** *** The properties on concrete providers *)

Import Sample.

Lemma release_active_promotes_front_witness :
  let this :=
    service (run Sample.id [CallRegister git; CallRegister svn; CallRegister hg]
               startup) in
  _activeProvider this = Some git
  ∧ git ∈ _providers this
  ∧ _providers this ≠ [git]
  ∧ ∃ q l1 l2 this',
      _providers this = l1 ++ (git :: l2) ∧ (git ∉ l1)
      ∧ (l1 ++ l2) !! 0%nat = Some q
      ∧ unregister Sample.id git this = (this', Return ())
      ∧ _providers this' = l1 ++ l2
      ∧ _activeProvider this' = Some q
      ∧ activeProviderContextKey this' = Some (Sample.id q)
      ∧ _onDidChangeProvider this'
        = _onDidChangeProvider this ++ [delivery_of Sample.id q].
Proof.
  intros this.
  assert (git ∈ _providers this) as Hin
    by (apply list_elem_of_further, list_elem_of_further, list_elem_of_here).
  assert (_providers this ≠ [git]) as Hne by discriminate.
  split_and!; [reflexivity|done|done|].
  apply (release_active_promotes_front Sample.id git this);
    [reflexivity|done|done].
Defined.

Lemma release_removes_first_occurrence_witness :
  let this := service (run Sample.id [CallRegister git] startup) in
  git ∈ _providers this
  ∧ ∃ l1 l2,
      _providers this = l1 ++ (git :: l2) ∧ (git ∉ l1)
      ∧ _providers (fst (unregister Sample.id git this)) = l1 ++ l2.
Proof.
  intros this.
  assert (git ∈ _providers this) as Hin by apply list_elem_of_here.
  split; [done|].
  apply (release_removes_first_occurrence Sample.id git this); done.
Defined.

Lemma register_release_round_trip_witness :
  let this := service (run Sample.id [CallRegister git] startup) in
  _providers this ≠ []
  ∧ _activeProvider this ≠ Some svn
  ∧ (registerWizeProvider Sample.id svn ≫= dispose) this = (this, Return ()).
Proof.
  intros this.
  assert (_providers this ≠ []) as Hne by discriminate.
  assert (_activeProvider this ≠ Some svn) as Ha by discriminate.
  split_and!; [done|done|].
  apply (register_release_round_trip Sample.id svn this); done.
Defined.

Lemma released_provider_cannot_be_activated_witness :
  let this :=
    service (run Sample.id [CallRegister git; CallRegister svn] startup) in
  _providers this = [svn] ++ (git :: [])
  ∧ (git ∉ [svn]) ∧ (git ∉ [])
  ∧ set_activeProvider Sample.id (Some git)
      (fst (unregister Sample.id git this))
    = (fst (unregister Sample.id git this), Throw UnregisteredProvider).
Proof.
  intros this.
  assert (git ∉ [svn]) as Hn1
    by (intros Hin; apply list_elem_of_singleton in Hin; discriminate).
  assert (git ∉ @nil Provider) as Hn2 by apply not_elem_of_nil.
  split_and!; [reflexivity|done|done|].
  apply (released_provider_cannot_be_activated Sample.id git this [svn] []);
    [reflexivity|done|done].
Defined.

Lemma no_throw_keeps_registry_invariant_witness :
  let cs := [CallRegister git; CallRegister svn; CallSetActive (Some svn);
             CallDispose 0] in
  all_returned Sample.id cs startup = true
  ∧ active_registered (service (run Sample.id cs startup))
  ∧ empty_unset (service (run Sample.id cs startup)).
Proof.
  intros cs. split; [reflexivity|].
  apply (no_throw_keeps_registry_invariant Sample.id cs). reflexivity.
Defined.

End WizeServiceMore.

(** ** The preview toggle across reloads *)

Module WizePreviewMore.
Import WizePreview WizePreviewFacts.

Lemma assign_all_snoc (bs : list bool) (b : bool) (w : Window) :
  assign_all (bs ++ [b]) w = set_enabled b (assign_all bs w).
Proof. unfold assign_all. by rewrite foldl_app. Qed.

(** X12: when the class is next loaded on the storage a window leaves
    behind, the toggle has the value assigned last in that window; with
    no assignment it has the value the window itself started with. *)
Theorem last_assignment_wins_after_reload (storage : gmap string string)
    (bs : list bool) :
  enabled (load (localStorage (assign_all bs (load storage))))
  = default (enabled (load storage)) (last bs).
Proof.
  destruct bs as [|b bs] using rev_ind; [done|].
  rewrite assign_all_snoc, last_snoc. simpl.
  apply load_after_set_enabled.
Qed.

(** X13: a declined action changes nothing and asks for no reload; a
    confirmed one asks for a reload, leaves the toggle of the running
    window as it is, and when the class is loaded again on the storage
    left behind the toggle is on for the enable action and off for the
    disable action. *)
Theorem preview_actions_take_effect_on_reload (w : Window) :
  EnableWizePreviewAction_run false w = (w, false)
  ∧ DisableWizePreviewAction_run false w = (w, false)
  ∧ snd (EnableWizePreviewAction_run true w) = true
  ∧ snd (DisableWizePreviewAction_run true w) = true
  ∧ enabled (fst (EnableWizePreviewAction_run true w)) = enabled w
  ∧ enabled (fst (DisableWizePreviewAction_run true w)) = enabled w
  ∧ enabled (load (localStorage (fst (EnableWizePreviewAction_run true w))))
    = true
  ∧ enabled (load (localStorage (fst (DisableWizePreviewAction_run true w))))
    = false.
Proof.
  split_and!; [done..| |].
  - exact (load_after_set_enabled true w).
  - exact (load_after_set_enabled false w).
Qed.

End WizePreviewMore.

(** ** The viewlet *)

Module WizeViewletFacts.
Import Js JsFacts WizeViewlet.

Section Viewlet.
Context {IWizeProvider IWizeResourceGroup IWizeResource : Type}.
Context `{EqDecision IWizeProvider}.
Context (provider_resources : IWizeProvider → list IWizeResourceGroup).
Context (group_resources : IWizeResourceGroup → list IWizeResource).

Local Abbreviation Element :=
  (Element (IWizeResourceGroup:=IWizeResourceGroup)
           (IWizeResource:=IWizeResource)).
Local Abbreviation elements := (WizeViewlet.elements group_resources).
Local Abbreviation rows_for :=
  (WizeViewlet.rows_for provider_resources group_resources).
Local Abbreviation setActiveProvider :=
  (WizeViewlet.setActiveProvider provider_resources group_resources).
Local Abbreviation setActiveProvider_all :=
  (WizeViewlet.setActiveProvider_all provider_resources group_resources).
Local Abbreviation WizeViewlet :=
  (WizeViewlet (IWizeProvider:=IWizeProvider)
               (IWizeResourceGroup:=IWizeResourceGroup)
               (IWizeResource:=IWizeResource)).

(** The rows of one group: the group, then its resources. *)
Local Abbreviation group_rows :=
  (λ g, (inl g : Element) :: (inr <$> group_resources g)).

Lemma reduce_from (acc : list Element) (groups : list IWizeResourceGroup) :
  foldl (λ r g, r ++ [inl g] ++ (inr <$> group_resources g)) acc groups
  = acc ++ (groups ≫= group_rows).
Proof.
  revert acc. induction groups as [|g groups IH]; intros acc; simpl.
  - by rewrite app_nil_r.
  - rewrite IH, <- app_assoc. done.
Qed.

Lemma elements_bind (groups : list IWizeResourceGroup) :
  elements groups = groups ≫= group_rows.
Proof. unfold WizeViewlet.elements. by rewrite reduce_from. Qed.

Lemma omap_group_of_resources (rs : list IWizeResource) :
  omap group_of ((inr <$> rs) : list Element) = [].
Proof. by induction rs. Qed.

Lemma omap_resource_of_resources (rs : list IWizeResource) :
  omap resource_of ((inr <$> rs) : list Element) = rs.
Proof. induction rs as [|r rs IH]; [done|]. simpl. by f_equal. Qed.

(** X14: the rows built for a provider are its groups in order, each
    directly followed by its own resources in order: no group and no
    resource is lost, repeated or moved. *)
Theorem elements_keep_groups_and_resources (groups : list IWizeResourceGroup) :
  elements groups = groups ≫= group_rows
  ∧ omap group_of (elements groups) = groups
  ∧ omap resource_of (elements groups) = groups ≫= group_resources
  ∧ length (elements groups)
    = (length groups + length (groups ≫= group_resources))%nat.
Proof.
  rewrite elements_bind. split; [done|].
  induction groups as [|g groups (IH1 & IH2 & IH3)]; [done|].
  rewrite !bind_cons. split_and!.
  - rewrite omap_app. simpl.
    by rewrite omap_group_of_resources, IH1.
  - rewrite omap_app. simpl.
    by rewrite omap_resource_of_resources, IH2.
  - rewrite !length_app. simpl. rewrite length_fmap, IH3. lia.
Qed.

(** *** Following the active provider *)

Lemma splice_all (rows elements : list Element) :
  splice rows 0 (length rows) elements = elements.
Proof. unfold splice. simpl. by rewrite drop_all, app_nil_r. Qed.

Lemma setActiveProvider_spec (activeProvider active : option IWizeProvider)
    (this : WizeViewlet) :
  listening this = option_list (providerChangeDisposable this) →
  setActiveProvider activeProvider active this
  = {| list_ := rows_for active;
       providerChangeDisposable := activeProvider;
       listening := option_list activeProvider |}.
Proof.
  intros Hl. unfold WizeViewlet.setActiveProvider, providerChangeDisposable_dispose.
  assert (listening
            match providerChangeDisposable this with
            | Some p =>
                {| list_ := list_ this;
                   providerChangeDisposable := providerChangeDisposable this;
                   listening := splice1 (listening this)
                                  (indexOf (listening this) (Some p)) |}
            | None => this
            end = []) as Hempty.
  { destruct (providerChangeDisposable this) as [p|] eqn:Hd; simpl; [|done].
    rewrite Hl. simpl.
    rewrite (indexOf_middle [] [] p) by apply not_elem_of_nil.
    apply (splice1_middle [] [] p). }
  destruct activeProvider as [p|], active as [a|];
    unfold update; simpl; rewrite Hempty, splice_all; done.
Qed.

(** X15: however often [setActiveProvider] runs, the viewlet ends up
    listening to the change stream of the provider passed last and to no
    other stream (to none at all when that value was unset), and its
    list shows the rows of the provider the service reported on that
    run, whatever it showed before. *)
Theorem viewlet_listens_to_last_provider
    (calls : list (option IWizeProvider * option IWizeProvider)) :
  let this := setActiveProvider_all calls constructor in
  providerChangeDisposable this = last calls ≫= fst
  ∧ listening this = option_list (last calls ≫= fst)
  ∧ list_ this = rows_for (last calls ≫= snd).
Proof.
  induction calls as [|c calls IH] using rev_ind; [done|].
  unfold WizeViewlet.setActiveProvider_all in *. rewrite foldl_app. simpl.
  rewrite setActiveProvider_spec, last_snoc; [done|].
  simpl in IH. destruct IH as (-> & -> & _). done.
Qed.

End Viewlet.

Section WithService.
Context {IWizeProvider IWizeResourceGroup IWizeResource : Type}.
Context `{EqDecision IWizeProvider}.
Context (id : IWizeProvider → string).
Context (provider_resources : IWizeProvider → list IWizeResourceGroup).
Context (group_resources : IWizeResourceGroup → list IWizeResource).

Local Abbreviation rows_for :=
  (WizeViewlet.rows_for provider_resources group_resources).
Local Abbreviation after_deliveries :=
  (WizeViewlet.after_deliveries provider_resources group_resources).

Lemma after_deliveries_spec (ds : list WizeService.Delivery) :
  after_deliveries ds
  = {| list_ := rows_for (last ds ≫= WizeService.seen_activeProvider);
       providerChangeDisposable := last ds ≫= WizeService.payload;
       listening := option_list (last ds ≫= WizeService.payload) |}.
Proof.
  induction ds as [|d ds IH] using rev_ind.
  - by apply (setActiveProvider_spec provider_resources group_resources
                None None constructor).
  - unfold WizeViewlet.after_deliveries in *. rewrite foldl_app, IH.
    cbn [foldl]. unfold on_delivery.
    rewrite setActiveProvider_spec by done. by rewrite last_snoc.
Qed.

Lemma run_active_is_last_payload (cs : list WizeService.Call) :
  WizeService._activeProvider
    (WizeService.service (WizeService.run id cs WizeService.startup))
  = last (WizeService._onDidChangeProvider
            (WizeService.service (WizeService.run id cs WizeService.startup)))
    ≫= WizeService.payload.
Proof.
  apply (WizeServiceMore.run_preserves id
           (λ this, WizeService._activeProvider this
                    = last (WizeService._onDidChangeProvider this)
                      ≫= WizeService.payload));
    [| | |constructor|done].
  - intros p this HP.
    destruct (WizeServiceMore.registerWizeProvider_cases id p this)
      as [[_ ->]|[_ ->]]; [|done].
    simpl. by rewrite last_snoc.
  - intros o this HP.
    destruct (WizeServiceMore.set_activeProvider_cases id o this)
      as [[_ ->]|[(p & _ & _ & ->)|(p & _ & _ & ->)]]; [done..|].
    simpl. by rewrite last_snoc.
  - intros p this HP.
    destruct (WizeServiceMore.unregister_cases id p this)
      as [[_ ->]|(l1 & l2 & _ & _ & [[_ ->]|[(_ & q & _ & ->)|(_ & _ & _ & ->)]])];
      [done..| |done].
    simpl. by rewrite last_snoc.
Qed.

(** X16: a viewlet created on a new service and notified of every
    delivery follows the service: after any series of calls on the
    service it listens to the change stream of the service's active
    provider only, and its list shows that provider's rows (no row when
    no provider is active). *)
Theorem viewlet_follows_service (cs : list WizeService.Call) :
  let service :=
    WizeService.service (WizeService.run id cs WizeService.startup) in
  let this := after_deliveries (WizeService._onDidChangeProvider service) in
  providerChangeDisposable this = WizeService._activeProvider service
  ∧ listening this = option_list (WizeService._activeProvider service)
  ∧ list_ this = rows_for (WizeService._activeProvider service).
Proof.
  intros service this. unfold this. rewrite after_deliveries_spec. simpl.
  pose proof (run_active_is_last_payload cs) as Hlast. fold service in Hlast.
  pose proof (WizeServiceFacts.run_consistent id cs WizeService.startup) as Hc.
  specialize (Hc ltac:(constructor) ltac:(constructor)). fold service in Hc.
  rewrite Hlast. split_and!; [done..|]. f_equal.
  destruct (last (WizeService._onDidChangeProvider service)) as [d|] eqn:Hd;
    [|done].
  simpl. apply last_Some_elem_of in Hd.
  rewrite Forall_forall in Hc. by destruct (Hc d Hd).
Qed.

End WithService.

End WizeViewletFacts.
